(** * sshpilot: the macOS bundle launcher stub (packaging/macos/launcher.c)

    A shallow embedding of [main] of launcher.c and the properties of its
    path derivation, its failure handling and its resource discipline.

    - C strings are lists of characters; a [char] array is a list whose
      length is the capacity of the array, and every access is checked
      against that capacity (an access outside it is undefined behaviour,
      modelled by [None]).
    - The C library and the operating system are modelled by what the
      program can observe of them: [snprintf], [strstr] and [free] by
      their ISO C contract, [realpath], [stat], [chdir] and [execl] by
      the answers of an arbitrary [World]. *)

From Stdlib Require Import Ascii String ZArith.
From stdpp Require Import base tactics option list strings.

Open Scope list_scope.

(** ** Characters and strings *)

Definition NUL : ascii := Ascii.zero.
Definition LF : ascii := "010"%char.

(** The characters of a C string, terminator excluded. *)
Abbreviation cstr := (list ascii).

(** A string literal of the source. *)
Definition lit (s : string) : cstr := list_ascii_of_string s.

(** A list of characters is the content of a C string when it holds no
    terminator. *)
Definition nul_free (s : cstr) : Prop := NUL ∉ s.

(** [s] occurs in [t] at offset [i]. *)
Definition occurs_at (s t : cstr) (i : nat) : Prop := s `prefix_of` drop i t.

(** [s] is a substring of [t]. *)
Definition contains (t s : cstr) : Prop := ∃ i, occurs_at s t i.

(** The first occurrence of [s] in [t] is at offset [i]. *)
Definition first_at (s t : cstr) (i : nat) : Prop :=
  occurs_at s t i ∧ ∀ j, j < i → ¬ occurs_at s t j.

(** Boolean prefix test. *)
Fixpoint is_prefix (s t : cstr) : bool :=
  match s, t with
  | [], _ => true
  | _ :: _, [] => false
  | a :: s', b :: t' => if decide (a = b) then is_prefix s' t' else false
  end.

(** ** Character arrays *)

Module Mem.

(** An array of [char]; its length is its capacity. *)
Abbreviation buffer := (list ascii).

(** [char b[n];] on the stack: [n] cells of indeterminate content. *)
Definition alloca (n : nat) (junk : nat → ascii) : buffer := junk <$> seq 0 n.

Definition sizeof (b : buffer) : nat := length b.

(** [b[i] = c]; outside the array the behaviour is undefined. *)
Definition store (b : buffer) (i : nat) (c : ascii) : option buffer :=
  if decide (i < length b) then Some (<[i:=c]> b) else None.

(** [b[i] = s[0]; b[i+1] = s[1]; ...] *)
Fixpoint store_from (b : buffer) (i : nat) (s : list ascii) : option buffer :=
  match s with
  | [] => Some b
  | c :: s' => b' ← store b i c; store_from b' (S i) s'
  end.

(** Reading [b] as a C string: the characters before the first
    terminator.  An array without terminator is read past its end. *)
Fixpoint c_str (b : buffer) : option cstr :=
  match b with
  | [] => None
  | c :: b' => if decide (c = NUL) then Some [] else (c ::.) <$> c_str b'
  end.

End Mem.

(** ** The C library, by its contract *)

Module Libc.
Import Mem.

(** [snprintf(b, n, fmt, ...)] where [out] is the fully formatted text:
    nothing is written when [n = 0]; otherwise the first [n - 1]
    characters of [out] and a terminator are written at the start of
    [b].  The value returned is the length of [out]. *)
Definition snprintf (b : buffer) (n : nat) (out : cstr) : option (buffer * nat) :=
  match n with
  | 0 => Some (b, length out)
  | S m => b' ← store_from b 0 (take m out ++ [NUL]); Some (b', length out)
  end.

(** [strstr(h, n)]: the offset in [h] of the first occurrence of [n],
    or no offset (the null pointer) when there is none. *)
Fixpoint strstr (h n : cstr) : option nat :=
  if is_prefix n h then Some 0
  else match h with
       | [] => None
       | _ :: h' => S <$> strstr h' n
       end.

End Libc.

(** ** The process and its environment *)

(** The heap block that [realpath] allocates for its result. *)
Inductive block := Unallocated | Live | Released.

(** The calls the program makes that are visible outside it. *)
Inductive call :=
| CallRealpath (file_name : option cstr)
| CallStat (path : cstr)
| CallChdir (path : cstr)
| CallExecl (path : cstr) (args : list cstr)
| CallFree.

(** What is observable of the process: its working directory, its
    environment, the block of the canonical path, the text written to
    the error stream and the calls made so far, oldest first. *)
Record proc := Proc {
  cwd : cstr;
  environ : list cstr;
  exe_block : block;
  stderr : list ascii;
  calls : list call
}.

(** The answers of the operating system: the canonical path of a file
    name if it resolves, and whether [stat], [chdir] and [execl] succeed
    on a path.  [os_execl] answers [true] when the image is replaced. *)
Record World := {
  os_realpath : cstr → option cstr;
  os_stat : cstr → bool;
  os_chdir : cstr → bool;
  os_execl : cstr → list cstr → bool
}.

(** How the program ends: [main] returns a status, or the process image
    has been replaced and nothing of the program runs any more. *)
Inductive outcome :=
| Exited (status : Z)
| Replaced (image : cstr) (args : list cstr).

(** Computations on the process; [None] is undefined behaviour. *)
Definition M (A : Type) : Type := proc → option (A * proc).

#[global] Instance proc_ret : MRet M := λ A a p, Some (a, p).
#[global] Instance proc_bind : MBind M := λ A B f m p,
  match m p with Some (a, p') => f a p' | None => None end.

(** A computation on the arrays, which does not touch the process. *)
Definition lift {A} (o : option A) : M A := λ p, (λ a, (a, p)) <$> o.

(** Undefined behaviour. *)
Definition undefined {A} : M A := λ _, None.

Definition get_block : M block := λ p, Some (exe_block p, p).
Definition set_block (b : block) : M unit :=
  λ p, Some (tt, Proc (cwd p) (environ p) b (stderr p) (calls p)).
Definition set_cwd (dir : cstr) : M unit :=
  λ p, Some (tt, Proc dir (environ p) (exe_block p) (stderr p) (calls p)).
Definition logged (c : call) : M unit :=
  λ p, Some (tt, Proc (cwd p) (environ p) (exe_block p) (stderr p) (calls p ++ [c])).

Module Sys.

(** [realpath(file_name, NULL)]: a null [file_name] is an error; a
    resolved name is returned in a freshly allocated block. *)
Definition realpath (w : World) (file_name : option cstr) : M (option cstr) :=
  logged (CallRealpath file_name);;
  match file_name ≫= os_realpath w with
  | None => mret None
  | Some path => set_block Live;; mret (Some path)
  end.

(** [free(executable_path)]: releasing a block that is not live is
    undefined. *)
Definition free : M unit :=
  logged CallFree;;
  b ← get_block;
  match b with
  | Live => set_block Released
  | _ => undefined
  end.

(** [fprintf(stderr, ...)] with [msg] the formatted text. *)
Definition fprintf_stderr (msg : list ascii) : M unit :=
  λ p, Some (tt, Proc (cwd p) (environ p) (exe_block p) (stderr p ++ msg) (calls p)).

(** [stat(path, &st) == 0] *)
Definition stat (w : World) (path : cstr) : M bool :=
  logged (CallStat path);; mret (os_stat w path).

(** [chdir(path) == 0]; on success [path] is the working directory. *)
Definition chdir (w : World) (path : cstr) : M bool :=
  logged (CallChdir path);;
  if os_chdir w path then set_cwd path;; mret true else mret false.

(** [execl(path, arg0, ..., NULL)]: [true] when the image was replaced
    (the call does not return), [false] when the call returned. *)
Definition execl (w : World) (path : cstr) (args : list cstr) : M bool :=
  logged (CallExecl path args);; mret (os_execl w path args).

End Sys.

(** ** launcher.c *)

Definition marker : cstr := lit "/Contents/".
Definition resources_suffix : cstr := lit "/Contents/Resources".
Definition script_suffix : cstr := lit "/Contents/Resources/launcher.sh".

Definition msg_resolve : list ascii :=
  lit "Error: Could not resolve executable path" ++ [LF].
Definition msg_not_found (script_path : cstr) : list ascii :=
  lit "Error: Launcher script not found at " ++ script_path ++ [LF].
Definition msg_chdir : list ascii :=
  lit "Error: Could not change to resources directory" ++ [LF].
Definition msg_exec : list ascii :=
  lit "Error: Failed to execute launcher script" ++ [LF].

(** The three arrays of [main] after lines 21-28. *)
Record paths := Paths {
  app_path : Mem.buffer;
  resources_path : Mem.buffer;
  script_path : Mem.buffer
}.

(** Lines 21-28 of [main]: the three arrays are filled from the
    canonical path. *)
Definition fill_paths (app_path resources_path script_path : Mem.buffer)
    (executable_path : cstr) : option paths :=
  '(app_path, _) ← Libc.snprintf app_path (Mem.sizeof app_path) executable_path;
  copied ← Mem.c_str app_path;
  app_path ← match Libc.strstr copied marker with
             | Some contents_pos => Mem.store app_path contents_pos NUL
             | None => Some app_path
             end;
  root ← Mem.c_str app_path;
  '(resources_path, _) ←
    Libc.snprintf resources_path (Mem.sizeof resources_path) (root ++ resources_suffix);
  root ← Mem.c_str app_path;
  '(script_path, _) ←
    Libc.snprintf script_path (Mem.sizeof script_path) (root ++ script_suffix);
  Some (Paths app_path resources_path script_path).

(** Lines 8-10 and 21-28 of [main]: the arrays are declared with 1024
    cells each, of indeterminate contents [j1], [j2], [j3], and filled. *)
Definition construct_paths (j1 j2 j3 : nat → ascii) (executable_path : cstr)
  : option paths :=
  fill_paths (Mem.alloca 1024 j1) (Mem.alloca 1024 j2) (Mem.alloca 1024 j3)
    executable_path.

(** [main(argc, argv)]; [argv[0]] is null when [argv] is empty. *)
Definition main (w : World) (j1 j2 j3 : nat → ascii) (argv : list cstr) : M outcome :=
  executable_path ← Sys.realpath w (head argv);
  match executable_path with
  | None =>
      Sys.fprintf_stderr msg_resolve;;
      mret (Exited 1%Z)
  | Some executable_path =>
      ps ← lift (construct_paths j1 j2 j3 executable_path);
      script ← lift (Mem.c_str (script_path ps));
      found ← Sys.stat w script;
      if negb found then
        Sys.fprintf_stderr (msg_not_found script);;
        Sys.free;;
        mret (Exited 1%Z)
      else
        resources ← lift (Mem.c_str (resources_path ps));
        changed ← Sys.chdir w resources;
        if negb changed then
          Sys.fprintf_stderr msg_chdir;;
          Sys.free;;
          mret (Exited 1%Z)
        else
          script ← lift (Mem.c_str (script_path ps));
          replaced ← Sys.execl w script [script];
          if (replaced : bool) then mret (Replaced script [script])
          else
            Sys.fprintf_stderr msg_exec;;
            Sys.free;;
            mret (Exited 1%Z)
  end.

(** The process as the launcher is started: no block allocated, nothing
    written, no call made. *)
Definition start (dir : cstr) (env : list cstr) : proc := Proc dir env Unallocated [] [].

(** The launcher run from its start. *)
Definition run (w : World) (j1 j2 j3 : nat → ascii) (argv : list cstr)
    (dir : cstr) (env : list cstr) : option (outcome * proc) :=
  main w j1 j2 j3 argv (start dir env).

(** ** Vocabulary of the specification *)

(** The canonical path of the executable, when [realpath] resolves
    [argv[0]]. *)
Definition canonical (w : World) (argv : list cstr) : option cstr :=
  head argv ≫= os_realpath w.

(** The strings that the three arrays hold after lines 21-28: the bundle
    root, the resources directory and the script. *)
Definition derives (j1 j2 j3 : nat → ascii) (executable_path : cstr)
    (root resources script : cstr) : Prop :=
  ∃ ps, construct_paths j1 j2 j3 executable_path = Some ps ∧
        Mem.c_str (app_path ps) = Some root ∧
        Mem.c_str (resources_path ps) = Some resources ∧
        Mem.c_str (script_path ps) = Some script.

(** The four failures of the launcher, by the call that fails. *)
Inductive failure := ResolutionError | ScriptNotFoundError | ChdirError | ExecError.

(** When each failure happens: the first call that the system refuses. *)
Definition fails (w : World) (j1 j2 j3 : nat → ascii) (argv : list cstr)
    (f : failure) : Prop :=
  match f with
  | ResolutionError => canonical w argv = None
  | _ =>
      ∃ exe root res script,
        canonical w argv = Some exe ∧ derives j1 j2 j3 exe root res script ∧
        match f with
        | ScriptNotFoundError => os_stat w script = false
        | ChdirError => os_stat w script = true ∧ os_chdir w res = false
        | _ => os_stat w script = true ∧ os_chdir w res = true ∧
               os_execl w script [script] = false
        end
  end.

(** The path handed to the call that fails. *)
Definition offending_path (w : World) (j1 j2 j3 : nat → ascii) (argv : list cstr)
    (f : failure) (path : cstr) : Prop :=
  match f with
  | ResolutionError => head argv = Some path
  | _ =>
      ∃ exe root res script,
        canonical w argv = Some exe ∧ derives j1 j2 j3 exe root res script ∧
        match f with
        | ChdirError => path = res
        | _ => path = script
        end
  end.

(** The text that reports each failure. *)
Definition diagnostic (f : failure) (script : cstr) : list ascii :=
  match f with
  | ResolutionError => msg_resolve
  | ScriptNotFoundError => msg_not_found script
  | ChdirError => msg_chdir
  | ExecError => msg_exec
  end.

(** The steps of the launcher, and the step that a call belongs to;
    releasing the block is no step. *)
Inductive step := Resolve | Validate | Chdir | Exec.

Definition step_of (c : call) : option step :=
  match c with
  | CallRealpath _ => Some Resolve
  | CallStat _ => Some Validate
  | CallChdir _ => Some Chdir
  | CallExecl _ _ => Some Exec
  | CallFree => None
  end.

Definition steps (p : proc) : list step := omap step_of (calls p).

(** How many times the block of the canonical path was released. *)
Definition is_release (c : call) : bool :=
  match c with CallFree => true | _ => false end.

Definition releases (p : proc) : nat :=
  length (filter (λ c, is_release c = true) (calls p)).

(** What lines 22-25 leave of the string [copied] held by [app_path]:
    the part before the first occurrence of the marker, or all of it. *)
Definition cut_at_marker (copied : cstr) : cstr :=
  match Libc.strstr copied marker with
  | Some contents_pos => take contents_pos copied
  | None => copied
  end.

(** ** Example installations *)

(** Arrays that hold dots before they are written. *)
Definition dots : nat → ascii := λ _, "."%char.

(** A directory of [depth] levels, each named by [width] letters d. *)
Definition deep (depth width : nat) : cstr :=
  concat (replicate depth (lit "/" ++ replicate width "d"%char)).

(** The launcher of a bundle in /Applications. *)
Definition installed : cstr := lit "/Applications/SSHPilot.app/Contents/MacOS/sshpilot".

(** The bundle root, the resources directory and the script of that
    bundle. *)
Definition installed_root : cstr := lit "/Applications/SSHPilot.app".
Definition installed_resources : cstr :=
  lit "/Applications/SSHPilot.app/Contents/Resources".
Definition installed_script : cstr :=
  lit "/Applications/SSHPilot.app/Contents/Resources/launcher.sh".

(** The launcher of a bundle in a directory of 996 bytes; the path has
    1020 bytes. *)
Definition deep_installed : cstr := deep 4 248 ++ lit "/Contents/MacOS/sshpilot".

(** The launcher outside any bundle, at a path of 1013 bytes. *)
Definition unbundled : cstr := deep 4 250 ++ lit "/sshpilot".

(** A bundle kept on a volume that is itself named Contents. *)
Definition nested : cstr :=
  lit "/Volumes/Contents/SSHPilot.app/Contents/MacOS/sshpilot".

(** A bundle within a bundle, below a directory of 1016 bytes. *)
Definition far_nested : cstr :=
  deep 4 253 ++ lit "/Contents/Old.app/Contents/MacOS/sshpilot".

(** A system where [argv[0]] resolves to [exe] (or does not resolve) and
    the three later calls succeed or fail as told. *)
Definition world (exe : option cstr) (stat_ok chdir_ok exec_ok : bool) : World :=
  {| os_realpath := λ _, exe;
     os_stat := λ _, stat_ok;
     os_chdir := λ _, chdir_ok;
     os_execl := λ _ _, exec_ok |}.

(** The bundle in /Applications in good order, without its script,
    with a resources directory that cannot be entered, and with a script
    that cannot be executed. *)
Definition healthy : World := world (Some installed) true true true.
Definition no_script : World := world (Some installed) false true true.
Definition no_resources : World := world (Some installed) true false true.
Definition not_executable : World := world (Some installed) true true false.

(** The launcher copied to /usr/local/bin, outside any bundle. *)
Definition copied_out : cstr := lit "/usr/local/bin/sshpilot".
Definition outside : World := world (Some copied_out) false true true.

(** * Properties *)

(** ** Strings and arrays *)

Section strings.
Implicit Types s t n h : cstr.

Lemma is_prefix_spec s t : is_prefix s t = true ↔ s `prefix_of` t.
Proof.
  revert t; induction s as [|a s IH]; intros [|b t]; simpl.
  - split; [intros _; apply prefix_nil | done].
  - split; [intros _; apply prefix_nil | done].
  - split; [done | intros H; by apply prefix_nil_not in H].
  - case_decide as Hab.
    + subst b. rewrite IH. split; [apply prefix_cons | apply prefix_cons_inv_2].
    + split; [done | intros H; by apply prefix_cons_inv_1 in H].
Qed.

Lemma occurs_at_S s a t i : occurs_at s (a :: t) (S i) ↔ occurs_at s t i.
Proof. done. Qed.

Lemma occurs_at_split s t i :
  s ≠ [] → occurs_at s t i → ∃ rest, t = take i t ++ s ++ rest ∧ i + length s ≤ length t.
Proof.
  intros Hs [rest Hrest]. exists rest.
  assert (t = take i t ++ s ++ rest) as Ht by (by rewrite <- Hrest, take_drop).
  split; [done|].
  destruct (decide (i ≤ length t)) as [Hi|Hi].
  - apply (f_equal length) in Ht.
    rewrite !length_app, length_take in Ht. lia.
  - rewrite drop_ge in Hrest by lia. by destruct s.
Qed.

Lemma occurs_at_app pre s rest : occurs_at s (pre ++ s ++ rest) (length pre).
Proof. unfold occurs_at. rewrite drop_app_length. by exists rest. Qed.

Lemma first_at_unique s t i j : first_at s t i → first_at s t j → i = j.
Proof.
  intros [Hi Hmin] [Hj Hmin'].
  destruct (lt_eq_lt_dec i j) as [[Hlt|Heq]|Hgt]; [|done|].
  - by destruct (Hmin' i Hlt).
  - by destruct (Hmin j Hgt).
Qed.

End strings.

Section libc.
Import Mem Libc.
Implicit Types s t n h : cstr.
Implicit Types b : buffer.

Lemma strstr_Some h n i : strstr h n = Some i → first_at n h i.
Proof.
  revert i; induction h as [|a h IH]; intros i; simpl.
  - destruct (is_prefix n []) eqn:Hp; [|done].
    intros [= <-]. split; [by apply is_prefix_spec | lia].
  - destruct (is_prefix n (a :: h)) eqn:Hp.
    + intros [= <-]. split; [by apply is_prefix_spec | lia].
    + destruct (strstr h n) as [k|] eqn:Hk; [|done].
      intros [= <-]. destruct (IH k eq_refl) as [Hocc Hmin].
      split; [done|]. intros [|j] Hj.
      * intros Hn%is_prefix_spec. simpl in Hn. congruence.
      * rewrite occurs_at_S. apply Hmin. lia.
Qed.

Lemma strstr_None h n : strstr h n = None → ¬ contains h n.
Proof.
  induction h as [|a h IH]; simpl.
  - destruct (is_prefix n []) eqn:Hp; [done|]. intros _ [i Hi].
    unfold occurs_at in Hi. rewrite drop_nil in Hi.
    apply is_prefix_spec in Hi. congruence.
  - destruct (is_prefix n (a :: h)) eqn:Hp; [done|].
    destruct (strstr h n) eqn:Hk; [done|]. intros _ [[|i] Hi].
    + apply is_prefix_spec in Hi. simpl in Hi. congruence.
    + apply IH; [done|]. by exists i.
Qed.

Lemma first_at_strstr h n i : first_at n h i → strstr h n = Some i.
Proof.
  intros Hi. destruct (strstr h n) as [j|] eqn:Hj.
  - f_equal. eapply first_at_unique; [by apply strstr_Some | done].
  - destruct (strstr_None _ _ Hj). exists i. apply Hi.
Qed.

Lemma length_alloca k junk : length (alloca k junk) = k.
Proof. unfold alloca. by rewrite length_fmap, length_seq. Qed.

Lemma store_middle pre old c post :
  store (pre ++ old :: post) (length pre) c = Some (pre ++ c :: post).
Proof.
  unfold store. rewrite decide_True by (rewrite length_app; simpl; lia).
  by rewrite insert_app_r_alt, Nat.sub_diag.
Qed.

Lemma store_from_middle pre old s post :
  length old = length s →
  store_from (pre ++ old ++ post) (length pre) s = Some (pre ++ s ++ post).
Proof.
  revert pre old; induction s as [|c s IH]; intros pre [|o old] Hlen;
    simpl in *; try done.
  rewrite store_middle. simpl.
  replace (S (length pre)) with (length (pre ++ [c]))
    by (rewrite length_app; simpl; lia).
  rewrite (cons_middle c pre), (cons_middle c pre (s ++ post)), !app_assoc.
  rewrite <- (app_assoc (pre ++ [c])), <- (app_assoc (pre ++ [c]) s).
  apply IH. lia.
Qed.

(** Writing [s] at the start of an array that can hold it. *)
Lemma store_from_start b s :
  length s ≤ length b → store_from b 0 s = Some (s ++ drop (length s) b).
Proof.
  intros Hlen.
  rewrite <- (take_drop (length s) b) at 1.
  apply (store_from_middle [] (take (length s) b) s).
  rewrite length_take. lia.
Qed.

(** A write that does not fit is refused. *)
Lemma store_from_None b i s :
  s ≠ [] → length b < i + length s → store_from b i s = None.
Proof.
  revert b i; induction s as [|c s IH]; intros b i Hs Hlen; simpl in *; [done|].
  unfold store. case_decide as Hi; [|done]. simpl.
  apply IH; [destruct s; simpl in *; [lia|done] | rewrite length_insert; lia].
Qed.

Lemma c_str_cons c b :
  c_str (c :: b) = if decide (c = NUL) then Some [] else (c ::.) <$> c_str b.
Proof. done. Qed.

Lemma c_str_app s r : nul_free s → c_str (s ++ NUL :: r) = Some s.
Proof.
  unfold nul_free. induction s as [|c s IH]; intros Hs.
  - rewrite app_nil_l, c_str_cons. by rewrite decide_True.
  - rewrite not_elem_of_cons in Hs. destruct Hs as [Hc Hs].
    rewrite <- app_comm_cons, c_str_cons.
    rewrite decide_False by done. by rewrite IH.
Qed.

Lemma c_str_inv b s : c_str b = Some s → nul_free s ∧ ∃ r, b = s ++ NUL :: r.
Proof.
  unfold nul_free. revert s; induction b as [|c b IH]; intros s; [done|].
  rewrite c_str_cons. case_decide as Hc.
  - intros [= <-]. split; [apply not_elem_of_nil | exists b; by subst c].
  - destruct (c_str b) as [s'|]; [|done]. intros [= <-].
    destruct (IH s' eq_refl) as [Hs' [r ->]].
    split; [rewrite not_elem_of_cons; split; [congruence | done] | by exists r].
Qed.

(** An array that holds a terminator holds a string, a prefix of what
    was written before the terminator. *)
Lemma c_str_terminated s r :
  ∃ s', c_str (s ++ NUL :: r) = Some s' ∧ s' `prefix_of` s ∧
        (nul_free s → s' = s).
Proof.
  induction s as [|c s IH]; [|destruct IH as (s' & Hs' & Hpre & Heq)].
  - exists []. rewrite app_nil_l, c_str_cons. by rewrite decide_True.
  - rewrite <- app_comm_cons, c_str_cons. case_decide as Hc.
    + exists []. split; [done|]. split; [apply prefix_nil|].
      unfold nul_free. rewrite not_elem_of_cons. intros [Hn _]. by destruct Hn.
    + exists (c :: s'). rewrite Hs'. split; [done|].
      split; [by apply prefix_cons|].
      unfold nul_free in *. rewrite not_elem_of_cons. intros [_ Hs].
      by rewrite Heq.
Qed.

Lemma nul_free_prefix s t : s `prefix_of` t → nul_free t → nul_free s.
Proof. intros [k ->]. unfold nul_free. rewrite not_elem_of_app. tauto. Qed.

Lemma nul_free_app s t : nul_free s → nul_free t → nul_free (s ++ t).
Proof. unfold nul_free. rewrite not_elem_of_app. tauto. Qed.

Lemma nul_free_take s k : nul_free s → nul_free (take k s).
Proof. apply nul_free_prefix, prefix_take. Qed.

(** [snprintf] with the capacity of the array as its bound: the
    formatted text, cut to the capacity less one, and a terminator. *)
Lemma snprintf_sizeof b out :
  0 < length b →
  ∃ r, snprintf b (sizeof b) out
         = Some (take (length b - 1) out ++ NUL :: r, length out) ∧
       length (take (length b - 1) out ++ NUL :: r) = length b.
Proof.
  intros Hb. unfold sizeof, snprintf.
  destruct (length b) as [|m] eqn:Hm; [lia|].
  replace (S m - 1) with m by lia.
  assert (length (take m out ++ [NUL]) ≤ length b) as Hfit
    by (rewrite length_app, length_take; simpl; lia).
  rewrite store_from_start by done. simpl.
  exists (drop (length (take m out ++ [NUL])) b).
  rewrite <- app_assoc. split; [done|].
  rewrite !length_app in *. simpl in *. rewrite length_drop. lia.
Qed.

(** Line 24: the terminator written at the marker stays inside the
    string, and cuts it there. *)
Lemma store_at_marker copied r i :
  strstr copied marker = Some i →
  ∃ r', store (copied ++ NUL :: r) i NUL = Some (take i copied ++ NUL :: r') ∧
        length (take i copied ++ NUL :: r') = length (copied ++ NUL :: r) ∧
        i + length marker ≤ length copied.
Proof.
  intros [Hocc _]%strstr_Some.
  apply occurs_at_split in Hocc as (rest & Hsplit & Hlen); [|done].
  assert (i < length copied) as Hlt by (change (length marker) with 10 in Hlen; lia).
  destruct (drop i copied) as [|c tl] eqn:Hdrop.
  { apply (f_equal length) in Hdrop. rewrite length_drop in Hdrop.
    simpl in Hdrop. lia. }
  exists (tl ++ NUL :: r).
  assert (length (take i copied) = i) as Hi by (rewrite length_take; lia).
  assert (copied ++ NUL :: r = take i copied ++ c :: tl ++ NUL :: r) as ->.
  { rewrite <- (take_drop i copied) at 1. by rewrite Hdrop, <- app_assoc. }
  split; [|split; [|done]].
  - pose proof (store_middle (take i copied) c NUL (tl ++ NUL :: r)) as Hst.
    by rewrite Hi in Hst.
  - rewrite !length_app. simpl. lia.
Qed.

(** Lines 21-28, for arrays of any capacity: every access is inside
    its array (the result is defined), the arrays keep their capacity
    and each holds a terminated string, as follows. *)
Lemma fill_paths_spec a1 a2 a3 exe :
  0 < length a1 → 0 < length a2 → 0 < length a3 →
  ∃ ps copied,
    fill_paths a1 a2 a3 exe = Some ps ∧
    copied `prefix_of` take (length a1 - 1) exe ∧
    (nul_free exe → copied = take (length a1 - 1) exe) ∧
    nul_free copied ∧
    length (app_path ps) = length a1 ∧
    length (resources_path ps) = length a2 ∧
    length (script_path ps) = length a3 ∧
    c_str (app_path ps) = Some (cut_at_marker copied) ∧
    c_str (resources_path ps)
      = Some (take (length a2 - 1) (cut_at_marker copied ++ resources_suffix)) ∧
    c_str (script_path ps)
      = Some (take (length a3 - 1) (cut_at_marker copied ++ script_suffix)).
Proof.
  intros H1 H2 H3. unfold fill_paths.
  destruct (snprintf_sizeof a1 exe H1) as (r1 & -> & Hlen1). simpl.
  destruct (c_str_terminated (take (length a1 - 1) exe) r1)
    as (copied & Hcopied & Hpre & Hfull).
  rewrite Hcopied. simpl.
  destruct (c_str_inv _ _ Hcopied) as [Hnf [r1' Hb1]].
  rewrite Hb1 in *. clear Hb1 Hcopied.
  assert (∃ b2, match strstr copied marker with
                | Some contents_pos => store (copied ++ NUL :: r1') contents_pos NUL
                | None => Some (copied ++ NUL :: r1')
                end = Some b2 ∧ length b2 = length a1 ∧
                c_str b2 = Some (cut_at_marker copied)) as (b2 & -> & Hlen2 & Hroot).
  { unfold cut_at_marker. destruct (strstr copied marker) as [i|] eqn:Hi.
    - destruct (store_at_marker copied r1' i Hi) as (r' & -> & Hlen & _).
      eexists. split; [done|]. split; [congruence|].
      by apply c_str_app, nul_free_take.
    - eexists. split; [done|]. split; [done|]. by apply c_str_app. }
  simpl. rewrite Hroot. simpl.
  assert (nul_free (cut_at_marker copied)) as Hnfroot.
  { unfold cut_at_marker. destruct (strstr copied marker); [by apply nul_free_take|done]. }
  destruct (snprintf_sizeof a2 (cut_at_marker copied ++ resources_suffix) H2)
    as (r2 & -> & Hlenr). simpl.
  destruct (snprintf_sizeof a3 (cut_at_marker copied ++ script_suffix) H3)
    as (r3 & -> & Hlens). simpl.
  eexists _, copied. split; [done|]. simpl.
  split_and!; try done.
  - intros Hexe. by apply Hfull, nul_free_take.
  - apply c_str_app, nul_free_take, nul_free_app; [done|].
    unfold nul_free. by apply (bool_decide_unpack _).
  - apply c_str_app, nul_free_take, nul_free_app; [done|].
    unfold nul_free. by apply (bool_decide_unpack _).
Qed.

End libc.

(** ** Path construction *)

Section construction.
Import Mem Libc.
Variables j1 j2 j3 : nat → ascii.

Lemma construct_paths_spec exe :
  ∃ ps copied,
    construct_paths j1 j2 j3 exe = Some ps ∧
    copied `prefix_of` take 1023 exe ∧
    (nul_free exe → copied = take 1023 exe) ∧
    nul_free copied ∧
    length (app_path ps) = 1024 ∧
    length (resources_path ps) = 1024 ∧
    length (script_path ps) = 1024 ∧
    c_str (app_path ps) = Some (cut_at_marker copied) ∧
    c_str (resources_path ps)
      = Some (take 1023 (cut_at_marker copied ++ resources_suffix)) ∧
    c_str (script_path ps)
      = Some (take 1023 (cut_at_marker copied ++ script_suffix)).
Proof.
  unfold construct_paths.
  destruct (fill_paths_spec (alloca 1024 j1) (alloca 1024 j2) (alloca 1024 j3) exe)
    as (ps & copied & H); [rewrite length_alloca; lia ..|].
  rewrite !length_alloca in H.
  replace (1024 - 1) with 1023 in H by lia.
  by exists ps, copied.
Qed.

(** The strings derived from a well-formed canonical path. *)
Lemma derives_nul_free exe :
  nul_free exe →
  derives j1 j2 j3 exe
    (cut_at_marker (take 1023 exe))
    (take 1023 (cut_at_marker (take 1023 exe) ++ resources_suffix))
    (take 1023 (cut_at_marker (take 1023 exe) ++ script_suffix)).
Proof.
  intros Hexe.
  destruct (construct_paths_spec exe)
    as (ps & copied & Hps & _ & Hfull & _ & _ & _ & _ & Hroot & Hres & Hscr).
  rewrite (Hfull Hexe) in *. by exists ps.
Qed.

Lemma derives_total exe : ∃ root res script, derives j1 j2 j3 exe root res script.
Proof.
  destruct (construct_paths_spec exe)
    as (ps & copied & Hps & _ & _ & _ & _ & _ & _ & Hroot & Hres & Hscr).
  eexists _, _, _, ps. eauto.
Qed.

Lemma derives_fun exe root res script root' res' script' :
  derives j1 j2 j3 exe root res script →
  derives j1 j2 j3 exe root' res' script' →
  root = root' ∧ res = res' ∧ script = script'.
Proof.
  intros (ps & Hps & H1 & H2 & H3) (ps' & Hps' & H1' & H2' & H3').
  assert (ps' = ps) as -> by congruence.
  split_and!; congruence.
Qed.

End construction.

(** ** The runs of [main] *)

Section runs.
Variable w : World.
Variables j1 j2 j3 : nat → ascii.
Variable argv : list cstr.
Variable dir : cstr.
Variable env : list cstr.

Lemma run_unresolved :
  canonical w argv = None →
  run w j1 j2 j3 argv dir env
    = Some (Exited 1, Proc dir env Unallocated msg_resolve
                        [CallRealpath (head argv)]).
Proof.
  unfold canonical, run, main, Sys.realpath. intros Hnone.
  rewrite Hnone. reflexivity.
Qed.

Lemma run_resolved exe root res script :
  canonical w argv = Some exe →
  derives j1 j2 j3 exe root res script →
  run w j1 j2 j3 argv dir env = Some (
    if negb (os_stat w script) then
      (Exited 1, Proc dir env Released (msg_not_found script)
                   [CallRealpath (head argv); CallStat script; CallFree])
    else if negb (os_chdir w res) then
      (Exited 1, Proc dir env Released msg_chdir
                   [CallRealpath (head argv); CallStat script;
                    CallChdir res; CallFree])
    else if os_execl w script [script] then
      (Replaced script [script], Proc res env Live []
                   [CallRealpath (head argv); CallStat script;
                    CallChdir res; CallExecl script [script]])
    else
      (Exited 1, Proc res env Released msg_exec
                   [CallRealpath (head argv); CallStat script;
                    CallChdir res; CallExecl script [script]; CallFree])).
Proof.
  unfold canonical, run, main, Sys.realpath.
  intros Hexe (ps & Hps & _ & Hres & Hscr).
  rewrite Hexe.
  cbv beta iota delta [mbind proc_bind mret proc_ret logged set_block start lift
                       exe_block cwd environ stderr calls].
  rewrite Hps. simpl. rewrite Hscr. simpl.
  destruct (os_stat w script); simpl; [|reflexivity].
  rewrite Hres. simpl. unfold Sys.chdir. simpl.
  destruct (os_chdir w res); simpl; [|reflexivity].
  destruct (os_execl w script [script]); reflexivity.
Qed.

End runs.

(** ** The bundle root (lines 21-28) *)

Section root.
Import Mem Libc.
Implicit Types exe copied : cstr.

Lemma occurs_at_take s exe k j : occurs_at s (take k exe) j → occurs_at s exe j.
Proof.
  unfold occurs_at. intros Hocc.
  destruct (decide (j ≤ length (take k exe))) as [Hj|Hj].
  - rewrite <- (take_drop k exe) at 1. rewrite drop_app_le by done.
    by apply prefix_app_r.
  - rewrite drop_ge in Hocc by lia.
    apply prefix_nil_inv in Hocc as ->. apply prefix_nil.
Qed.

Lemma occurs_at_in_take s exe k i :
  occurs_at s exe i → i + length s ≤ k → occurs_at s (take k exe) i.
Proof.
  unfold occurs_at. intros [rest Hrest] Hi.
  destruct (decide (i ≤ length exe)) as [Hle|Hgt]; cycle 1.
  { rewrite drop_ge in Hrest by lia.
    symmetry in Hrest. apply app_eq_nil in Hrest as [-> _]. apply prefix_nil. }
  exists (take (k - (i + length s)) rest).
  rewrite <- (take_drop i exe) at 1. rewrite Hrest.
  rewrite take_app_ge by (rewrite length_take; lia).
  rewrite length_take, Nat.min_l by done.
  rewrite drop_app_length'; [|by rewrite length_take, Nat.min_l].
  rewrite take_app_ge by lia. do 2 f_equal. lia.
Qed.

Lemma first_at_in_take exe k i :
  first_at marker exe i → i + length marker ≤ k → first_at marker (take k exe) i.
Proof.
  intros [Hocc Hmin] Hi. split; [by apply occurs_at_in_take|].
  intros j Hj Hocc'. apply (Hmin j Hj). by eapply occurs_at_take.
Qed.

Lemma cut_at_marker_first copied i :
  first_at marker copied i → cut_at_marker copied = take i copied.
Proof. intros Hi. unfold cut_at_marker. by rewrite (first_at_strstr _ _ _ Hi). Qed.

Lemma cut_at_marker_none copied :
  ¬ contains copied marker → cut_at_marker copied = copied.
Proof.
  intros Hno. unfold cut_at_marker.
  destruct (strstr copied marker) as [i|] eqn:Hi; [|done].
  destruct Hno. exists i. by apply strstr_Some.
Qed.

Lemma cut_at_marker_prefix copied : cut_at_marker copied `prefix_of` copied.
Proof. unfold cut_at_marker. destruct (strstr copied marker); [apply prefix_take|done]. Qed.

(** The root derived from a path whose first marker lies in the part
    that [app_path] can hold. *)
Lemma root_of_marked exe i :
  first_at marker exe i → i + length marker ≤ 1023 →
  cut_at_marker (take 1023 exe) = take i exe ∧ length (take i exe) = i.
Proof.
  intros Hfirst Hi.
  rewrite (cut_at_marker_first _ i) by by apply first_at_in_take.
  destruct Hfirst as [Hocc _].
  apply occurs_at_split in Hocc as (rest & _ & Hlen); [|done].
  rewrite take_take, Nat.min_l by lia. split; [done|]. rewrite length_take. lia.
Qed.

Lemma root_of_unmarked exe :
  ¬ contains exe marker → cut_at_marker (take 1023 exe) = take 1023 exe.
Proof.
  intros Hno. apply cut_at_marker_none. intros [i Hi].
  apply Hno. exists i. by eapply occurs_at_take.
Qed.

End root.

(** ** The derived paths *)

Section paths.
Import Mem Libc.
Variables j1 j2 j3 : nat → ascii.

(** C1 (amended).  For a canonical path whose first occurrence of the
    marker lies within the 1023 bytes that [app_path] can hold, the
    bundle root is the prefix of the path that ends just before that
    occurrence; [resources_path] and [script_path] hold the root
    followed by "/Contents/Resources" and by
    "/Contents/Resources/launcher.sh", cut to 1023 bytes: they are the
    whole concatenation when it has at most 1023 bytes. *)
Theorem marked_path_derivation exe i :
  nul_free exe → first_at marker exe i → i + length marker ≤ 1023 →
  ∃ res script,
    derives j1 j2 j3 exe (take i exe) res script ∧
    res = take 1023 (take i exe ++ resources_suffix) ∧
    script = take 1023 (take i exe ++ script_suffix) ∧
    (i + length resources_suffix ≤ 1023 → res = take i exe ++ resources_suffix) ∧
    (i + length script_suffix ≤ 1023 → script = take i exe ++ script_suffix).
Proof.
  intros Hexe Hfirst Hi.
  destruct (root_of_marked exe i Hfirst Hi) as [Hroot Hlen].
  pose proof (derives_nul_free j1 j2 j3 exe Hexe) as Hd. rewrite Hroot in Hd.
  eexists _, _. split; [exact Hd|]. split; [done|]. split; [done|].
  split; intros Hfit; apply take_ge; rewrite length_app, Hlen; exact Hfit.
Qed.

(** C10 (amended).  When the marker occurs more than once in the
    canonical path and its first occurrence lies within the 1023 bytes
    that [app_path] can hold, the bundle root is the prefix before the
    first occurrence, and not the prefix before a later one. *)
Theorem root_ends_at_first_marker exe i k :
  nul_free exe → first_at marker exe i → occurs_at marker exe k →
  i + length marker ≤ 1023 →
  ∃ res script,
    derives j1 j2 j3 exe (take i exe) res script ∧
    i ≤ k ∧ (i < k → take i exe ≠ take k exe).
Proof.
  intros Hexe Hfirst Hk Hi.
  destruct (root_of_marked exe i Hfirst Hi) as [Hroot Hlen].
  pose proof (derives_nul_free j1 j2 j3 exe Hexe) as Hd. rewrite Hroot in Hd.
  eexists _, _. split; [exact Hd|].
  assert (i ≤ k) as Hik.
  { destruct (decide (i ≤ k)) as [|Hlt]; [done|].
    destruct Hfirst as [_ Hmin]. destruct (Hmin k); [lia | done]. }
  split; [done|]. intros Hlt Heq.
  apply occurs_at_split in Hk as (rest & _ & Hklen); [|done].
  apply (f_equal length) in Heq. rewrite Hlen, length_take in Heq. lia.
Qed.

End paths.

Ltac by_evaluation := vm_compute; first [reflexivity | exact I | lia].
Ltac nul_free_by_evaluation := unfold nul_free; apply (bool_decide_unpack _); by_evaluation.
Ltac first_at_by_evaluation := apply strstr_Some; by_evaluation.

Section unmarked.
Variable w : World.
Variables j1 j2 j3 : nat → ascii.
Variable argv : list cstr.
Variable dir : cstr.
Variable env : list cstr.

(** C2 (amended).  For a canonical path without the marker, the bundle
    root is the path as [app_path] holds it, that is its first 1023
    bytes: the full path, unmodified, when it is shorter than 1024 bytes,
    and no error is raised at this stage.  [resources_path] and
    [script_path] hold the root followed by the fixed suffixes, cut to
    1023 bytes: the whole concatenation when it has at most 1023 bytes.
    When [stat] fails on the derived script path, validation fails and
    the process exits with status 1. *)
Theorem bare_path_derivation exe :
  canonical w argv = Some exe → nul_free exe → ¬ contains exe marker →
  ∃ res script,
    derives j1 j2 j3 exe (take 1023 exe) res script ∧
    (length exe ≤ 1023 → take 1023 exe = exe) ∧
    res = take 1023 (take 1023 exe ++ resources_suffix) ∧
    script = take 1023 (take 1023 exe ++ script_suffix) ∧
    (length exe + length resources_suffix ≤ 1023 → res = exe ++ resources_suffix) ∧
    (length exe + length script_suffix ≤ 1023 → script = exe ++ script_suffix) ∧
    (os_stat w script = false →
     ∃ p, run w j1 j2 j3 argv dir env = Some (Exited 1, p) ∧
          stderr p = msg_not_found script ∧
          steps p = [Resolve; Validate]).
Proof.
  intros Hcan Hexe Hno.
  pose proof (derives_nul_free j1 j2 j3 exe Hexe) as Hd.
  rewrite (root_of_unmarked exe Hno) in Hd.
  eexists _, _. split; [exact Hd|].
  split; [intros Hfit; by apply take_ge|].
  split; [done|]. split; [done|].
  split; [|split].
  - intros Hfit. rewrite (take_ge exe) by lia.
    apply take_ge. rewrite length_app. exact Hfit.
  - intros Hfit. rewrite (take_ge exe) by lia.
    apply take_ge. rewrite length_app. exact Hfit.
  - intros Hstat. rewrite (run_resolved w j1 j2 j3 argv dir env _ _ _ _ Hcan Hd).
    rewrite Hstat. simpl. eexists. split; [done|]. done.
Qed.

End unmarked.

(** C1 (as stated) fails: the launcher of a bundle in a directory of 996
    bytes has a canonical path of 1020 bytes that contains the marker,
    and [script_path] is not the root followed by
    "/Contents/Resources/launcher.sh", which has 1027 bytes: it holds
    the first 1023 bytes of it. *)
Lemma deep_bundle_script_path_is_cut :
  nul_free deep_installed ∧
  length deep_installed = 1020 ∧
  first_at marker deep_installed 996 ∧
  take 996 deep_installed = deep 4 248 ∧
  derives dots dots dots deep_installed
    (deep 4 248) (deep 4 248 ++ resources_suffix)
    (take 1023 (deep 4 248 ++ script_suffix)) ∧
  ¬ derives dots dots dots deep_installed
    (deep 4 248) (deep 4 248 ++ resources_suffix) (deep 4 248 ++ script_suffix).
Proof.
  assert (nul_free deep_installed) as Hnf by nul_free_by_evaluation.
  assert (first_at marker deep_installed 996) as Hfirst by first_at_by_evaluation.
  assert (take 996 deep_installed = deep 4 248) as Hroot by by_evaluation.
  pose proof (derives_nul_free dots dots dots deep_installed Hnf) as Hd.
  destruct (root_of_marked deep_installed 996 Hfirst) as [Hcut _]; [by_evaluation|].
  rewrite Hcut, Hroot in Hd.
  rewrite (take_ge (deep 4 248 ++ resources_suffix)) in Hd by by_evaluation.
  split_and!; try done.
  intros Hbad.
  destruct (derives_fun _ _ _ _ _ _ _ _ _ _ Hd Hbad) as (_ & _ & Heq).
  apply (f_equal length) in Heq. vm_compute in Heq. discriminate.
Qed.

(** C1, at the launcher of a bundle in /Applications. *)
Lemma marked_path_derivation_installed :
  nul_free installed ∧ first_at marker installed 26 ∧ 26 + length marker ≤ 1023 ∧
  derives dots dots dots installed installed_root installed_resources installed_script.
Proof.
  assert (nul_free installed) as Hnf by nul_free_by_evaluation.
  assert (first_at marker installed 26) as Hfirst by first_at_by_evaluation.
  assert (26 + length marker ≤ 1023) as Hfit by by_evaluation.
  split_and!; try done.
  destruct (marked_path_derivation dots dots dots installed 26 Hnf Hfirst Hfit)
    as (res & script & Hd & _ & _ & Hres & Hscr).
  rewrite Hres, Hscr in Hd by by_evaluation. exact Hd.
Defined.

(** C2 (as stated) fails: a launcher outside any bundle, at a canonical
    path of 1013 bytes without the marker; neither [resources_path] nor
    [script_path] is the path followed by the fixed suffix. *)
Lemma long_unbundled_paths_are_cut :
  nul_free unbundled ∧
  length unbundled = 1013 ∧
  ¬ contains unbundled marker ∧
  derives dots dots dots unbundled unbundled
    (take 1023 (unbundled ++ resources_suffix))
    (take 1023 (unbundled ++ script_suffix)) ∧
  ¬ derives dots dots dots unbundled
      unbundled (unbundled ++ resources_suffix) (unbundled ++ script_suffix).
Proof.
  assert (nul_free unbundled) as Hnf by nul_free_by_evaluation.
  assert (¬ contains unbundled marker) as Hno by (apply strstr_None; by_evaluation).
  pose proof (derives_nul_free dots dots dots unbundled Hnf) as Hd.
  rewrite (root_of_unmarked _ Hno) in Hd.
  rewrite (take_ge unbundled) in Hd by by_evaluation.
  split_and!; try done.
  intros Hbad.
  destruct (derives_fun _ _ _ _ _ _ _ _ _ _ Hd Hbad) as (_ & Heq & _).
  apply (f_equal length) in Heq. vm_compute in Heq. discriminate.
Qed.

(** C2, at the launcher copied to /usr/local/bin. *)
Lemma bare_path_derivation_copied_out :
  canonical outside [lit "sshpilot"] = Some copied_out ∧
  nul_free copied_out ∧ ¬ contains copied_out marker ∧
  derives dots dots dots copied_out copied_out
    (lit "/usr/local/bin/sshpilot/Contents/Resources")
    (lit "/usr/local/bin/sshpilot/Contents/Resources/launcher.sh") ∧
  ∃ p, run outside dots dots dots [lit "sshpilot"] (lit "/") [] = Some (Exited 1, p).
Proof.
  assert (canonical outside [lit "sshpilot"] = Some copied_out) as Hcan by reflexivity.
  assert (nul_free copied_out) as Hnf by nul_free_by_evaluation.
  assert (¬ contains copied_out marker) as Hno by (apply strstr_None; by_evaluation).
  split_and!; try done.
  - destruct (bare_path_derivation outside dots dots dots [lit "sshpilot"] (lit "/") []
                copied_out Hcan Hnf Hno)
      as (res & script & Hd & Hroot & _ & _ & Hres & Hscr & _).
    rewrite Hres, Hscr, Hroot in Hd by by_evaluation. exact Hd.
  - destruct (bare_path_derivation outside dots dots dots [lit "sshpilot"] (lit "/") []
                copied_out Hcan Hnf Hno)
      as (res & script & _ & _ & _ & _ & _ & _ & Hrun).
    destruct (Hrun eq_refl) as (p & Hp & _). by exists p.
Defined.

(** C10 (as stated) fails: in this canonical path the marker occurs at
    offsets 1016 and 1033, and the bundle root is not the prefix before
    the first occurrence: [app_path] holds the first 1023 bytes of the
    path, in which the marker does not occur. *)
Lemma far_marker_is_missed :
  nul_free far_nested ∧
  first_at marker far_nested 1016 ∧
  occurs_at marker far_nested 1033 ∧
  (∃ res script,
     derives dots dots dots far_nested (take 1023 far_nested) res script) ∧
  ¬ (∃ res script,
       derives dots dots dots far_nested (take 1016 far_nested) res script).
Proof.
  assert (nul_free far_nested) as Hnf by nul_free_by_evaluation.
  assert (cut_at_marker (take 1023 far_nested) = take 1023 far_nested) as Hcut
    by by_evaluation.
  pose proof (derives_nul_free dots dots dots far_nested Hnf) as Hd.
  rewrite Hcut in Hd.
  split_and!.
  - done.
  - first_at_by_evaluation.
  - apply is_prefix_spec. by_evaluation.
  - eauto.
  - intros (res & script & Hbad).
    destruct (derives_fun _ _ _ _ _ _ _ _ _ _ Hd Hbad) as (Heq & _ & _).
    apply (f_equal length) in Heq. vm_compute in Heq. discriminate.
Qed.

(** C10, at a bundle kept on a volume that is itself named Contents:
    the root ends before the first marker, at offset 8, and not before
    the marker of the bundle, at offset 30. *)
Lemma root_ends_at_first_marker_nested :
  nul_free nested ∧ first_at marker nested 8 ∧ occurs_at marker nested 30 ∧
  8 + length marker ≤ 1023 ∧
  ∃ res script, derives dots dots dots nested (lit "/Volumes") res script.
Proof.
  assert (nul_free nested) as Hnf by nul_free_by_evaluation.
  assert (first_at marker nested 8) as Hfirst by first_at_by_evaluation.
  assert (occurs_at marker nested 30) as Hocc by (apply is_prefix_spec; by_evaluation).
  assert (8 + length marker ≤ 1023) as Hfit by by_evaluation.
  split_and!; try done.
  destruct (root_ends_at_first_marker dots dots dots nested 8 30 Hnf Hfirst Hocc Hfit)
    as (res & script & Hd & _).
  exists res, script. exact Hd.
Defined.


(** ** Buffer safety *)

Section safety.
Import Mem Libc.
Variables j1 j2 j3 : nat → ascii.

(** The model does refuse a write outside an array. *)
Lemma store_outside b i c : length b ≤ i → store b i c = None.
Proof. intros Hi. unfold store. by rewrite decide_False by lia. Qed.

(** [snprintf] with a bound beyond the capacity of the array, and a text
    that does not fit, overflows the array. *)
Lemma snprintf_overflow b n out :
  length b < n → length b ≤ length out → snprintf b n out = None.
Proof.
  intros Hn Hout. destruct n as [|m]; [lia|]. unfold snprintf.
  rewrite store_from_None; [done | by destruct (take m out) | ].
  rewrite length_app, length_take. simpl. lia.
Qed.

(** C9.  For every canonical path, however long, lines 21-28 stay
    within the three arrays of 1024 bytes (every access is defined) and
    leave in each a terminated string of at most 1023 bytes: a prefix of
    the canonical path in [app_path], and prefixes, possibly cut, of the
    root followed by the fixed suffixes in [resources_path] and
    [script_path]. *)
Theorem paths_stay_within_arrays exe :
  ∃ ps root res script,
    construct_paths j1 j2 j3 exe = Some ps ∧
    (length (app_path ps) = 1024 ∧ length (resources_path ps) = 1024 ∧
     length (script_path ps) = 1024) ∧
    (c_str (app_path ps) = Some root ∧ c_str (resources_path ps) = Some res ∧
     c_str (script_path ps) = Some script) ∧
    (root `prefix_of` exe ∧ res `prefix_of` root ++ resources_suffix ∧
     script `prefix_of` root ++ script_suffix) ∧
    (length root ≤ 1023 ∧ length res ≤ 1023 ∧ length script ≤ 1023) ∧
    (nul_free root ∧ nul_free res ∧ nul_free script).
Proof.
  destruct (construct_paths_spec j1 j2 j3 exe)
    as (ps & copied & Hps & Hpre & _ & Hnf & Hl1 & Hl2 & Hl3 & Hroot & Hres & Hscr).
  exists ps. eexists _, _, _. split; [done|]. split; [done|]. split; [done|].
  assert (cut_at_marker copied `prefix_of` take 1023 exe) as Hcut
    by (etrans; [apply cut_at_marker_prefix | done]).
  split; [|split].
  - split_and!; [|apply prefix_take..]. etrans; [done | apply prefix_take].
  - split_and!; [|rewrite length_take; lia..].
    apply prefix_length in Hcut. rewrite length_take in Hcut. lia.
  - split_and!; [by eapply c_str_inv..].
Qed.

End safety.

(** ** The runs of the launcher *)

Ltac pick_call H :=
  repeat (apply elem_of_cons in H as [H|H]; [try discriminate H|]);
  [.. | by apply elem_of_nil in H].

Section launcher.
Variable w : World.
Variables j1 j2 j3 : nat → ascii.
Variable argv : list cstr.
Variable dir : cstr.
Variable env : list cstr.

Lemma msg_not_found_mentions path : contains (msg_not_found path) path.
Proof.
  exists (length (lit "Error: Launcher script not found at ")).
  apply occurs_at_app.
Qed.

(** C3.  When resolution, validation and [chdir] succeed and [execl]
    replaces the image, the launcher ends replaced by the program at
    [script_path], with [script_path] as its only argument whatever the
    arguments of the launcher were, with [resources_path] as the working
    directory and the environment as it was at the start; [execl] is the
    last call made and nothing is written to the error stream. *)
Theorem exec_replaces_image exe root res script :
  canonical w argv = Some exe → derives j1 j2 j3 exe root res script →
  os_stat w script = true → os_chdir w res = true →
  os_execl w script [script] = true →
  ∃ p, run w j1 j2 j3 argv dir env = Some (Replaced script [script], p) ∧
       cwd p = res ∧ environ p = env ∧ stderr p = [] ∧
       last (calls p) = Some (CallExecl script [script]) ∧
       steps p = [Resolve; Validate; Chdir; Exec].
Proof.
  intros Hcan Hd Hstat Hchdir Hexec.
  rewrite (run_resolved w j1 j2 j3 argv dir env _ _ _ _ Hcan Hd).
  rewrite Hstat, Hchdir, Hexec. simpl. by eexists.
Qed.

(** C4.  Each of the four failures ends the launcher with status 1 and
    its diagnostic, a text that is not empty, on the error stream; and
    no run ends with status 0. *)
Theorem failures_exit_with_status_1 :
  (∀ f, fails w j1 j2 j3 argv f →
        ∃ p script, run w j1 j2 j3 argv dir env = Some (Exited 1, p) ∧
                    stderr p = diagnostic f script ∧ stderr p ≠ []) ∧
  (∀ p, run w j1 j2 j3 argv dir env ≠ Some (Exited 0, p)) ∧
  (∃ r p, run w j1 j2 j3 argv dir env = Some (r, p)).
Proof.
  split; [|split].
  - intros [] Hf; simpl in Hf.
    + rewrite (run_unresolved _ _ _ _ _ _ _ Hf). by eexists _, [].
    + destruct Hf as (exe & root & res & script & Hcan & Hd & Hstat).
      rewrite (run_resolved _ _ _ _ _ _ _ _ _ _ _ Hcan Hd), Hstat. simpl.
      by eexists _, script.
    + destruct Hf as (exe & root & res & script & Hcan & Hd & Hstat & Hchdir).
      rewrite (run_resolved _ _ _ _ _ _ _ _ _ _ _ Hcan Hd), Hstat, Hchdir. simpl.
      by eexists _, [].
    + destruct Hf as (exe & root & res & script & Hcan & Hd & Hstat & Hchdir & Hexec).
      rewrite (run_resolved _ _ _ _ _ _ _ _ _ _ _ Hcan Hd), Hstat, Hchdir, Hexec.
      simpl. by eexists _, [].
  - intros p. destruct (canonical w argv) as [exe|] eqn:Hcan.
    + destruct (derives_total j1 j2 j3 exe) as (root & res & script & Hd).
      rewrite (run_resolved _ _ _ _ _ _ _ _ _ _ _ Hcan Hd).
      by destruct (os_stat w script), (os_chdir w res), (os_execl w script [script]).
    + by rewrite (run_unresolved _ _ _ _ _ _ _ Hcan).
  - destruct (canonical w argv) as [exe|] eqn:Hcan.
    + destruct (derives_total j1 j2 j3 exe) as (root & res & script & Hd).
      rewrite (run_resolved _ _ _ _ _ _ _ _ _ _ _ Hcan Hd).
      match goal with |- ∃ r p, Some ?x = _ => exists x.1, x.2; by destruct x end.
    + rewrite (run_unresolved _ _ _ _ _ _ _ Hcan). by eexists _, _.
Qed.

Lemma contains_elem (t s : cstr) c : contains t s → c ∈ s → c ∈ t.
Proof.
  intros [i [k Hk]] Hc. rewrite <- (take_drop i t), Hk, !elem_of_app. auto.
Qed.

Lemma contains_length (t s : cstr) : contains t s → s ≠ [] → length s ≤ length t.
Proof.
  intros [i Hi] Hs. apply occurs_at_split in Hi as (rest & _ & Hlen); [lia | done].
Qed.

(** A suffix that starts with a slash leaves a slash in the text that
    the array holds, unless the root fills the array. *)
Lemma slash_or_full (root suffix : cstr) :
  head suffix = Some "/"%char →
  "/"%char ∈ take 1023 (root ++ suffix) ∨ length (take 1023 (root ++ suffix)) = 1023.
Proof.
  intros Hhead. destruct suffix as [|c suffix]; simplify_eq/=.
  destruct (decide (length root < 1023)) as [Hshort|Hlong].
  - left. apply (list_elem_of_lookup_2 _ (length root)).
    rewrite lookup_take_lt by done. by rewrite list_lookup_middle.
  - right. rewrite length_take, length_app. lia.
Qed.

Lemma derived_slash_or_full exe root res script :
  derives j1 j2 j3 exe root res script →
  ("/"%char ∈ res ∨ length res = 1023) ∧ ("/"%char ∈ script ∨ length script = 1023).
Proof.
  intros (ps & Hps & Hroot & Hres & Hscr).
  destruct (construct_paths_spec j1 j2 j3 exe)
    as (ps' & copied & Hps' & _ & _ & _ & _ & _ & _ & _ & Hres' & Hscr').
  assert (ps' = ps) as -> by congruence.
  rewrite Hres in Hres'. rewrite Hscr in Hscr'.
  injection Hres' as ->. injection Hscr' as ->.
  split; by apply slash_or_full.
Qed.

(** A fixed diagnostic holds no slash and is short: it contains no text
    that has a slash or fills an array. *)
Lemma fixed_text_omits (text path : cstr) :
  "/"%char ∉ text → length text < 1023 →
  "/"%char ∈ path ∨ length path = 1023 → ¬ contains text path.
Proof.
  intros Hslash Hshort [Hin|Hfull] Hc.
  - by apply Hslash, (contains_elem text path).
  - apply contains_length in Hc; [lia|]. by destruct path.
Qed.

Lemma fixed_texts_plain :
  (("/"%char ∉ msg_resolve) ∧ length msg_resolve < 1023) ∧
  (("/"%char ∉ msg_chdir) ∧ length msg_chdir < 1023) ∧
  (("/"%char ∉ msg_exec) ∧ length msg_exec < 1023).
Proof.
  split_and!; first [by apply (bool_decide_unpack _) | vm_compute; lia].
Qed.

(** C5 (amended).  Each failure is reported on the error stream.  The
    diagnostic of [ScriptNotFoundError] contains the offending path, the
    script path as [stat] was given it.  The diagnostics of the three
    other failures are fixed texts that name the failing step and do
    not depend on the offending path: those of [ChdirError] and
    [ExecError] never contain it, and that of [ResolutionError] does not
    contain [argv[0]] when [argv[0]] holds a slash. *)
Theorem only_script_not_found_names_its_path f :
  fails w j1 j2 j3 argv f →
  ∃ p, run w j1 j2 j3 argv dir env = Some (Exited 1, p) ∧
       match f with
       | ScriptNotFoundError =>
           ∀ path, offending_path w j1 j2 j3 argv f path →
                   stderr p = msg_not_found path ∧ contains (stderr p) path
       | ResolutionError =>
           stderr p = msg_resolve ∧
           ∀ path, offending_path w j1 j2 j3 argv f path →
                   "/"%char ∈ path → ¬ contains (stderr p) path
       | ChdirError =>
           stderr p = msg_chdir ∧
           ∀ path, offending_path w j1 j2 j3 argv f path →
                   ¬ contains (stderr p) path
       | ExecError =>
           stderr p = msg_exec ∧
           ∀ path, offending_path w j1 j2 j3 argv f path →
                   ¬ contains (stderr p) path
       end.
Proof.
  destruct fixed_texts_plain as ((Hr1 & Hr2) & (Hc1 & Hc2) & (He1 & He2)).
  destruct f; simpl; intros Hf.
  - rewrite (run_unresolved _ _ _ _ _ _ _ Hf). eexists. split; [done|]. simpl.
    split; [done|]. intros path _ Hslash.
    apply fixed_text_omits; auto.
  - destruct Hf as (exe & root & res & script & Hcan & Hd & Hstat).
    rewrite (run_resolved _ _ _ _ _ _ _ _ _ _ _ Hcan Hd), Hstat. simpl.
    eexists. split; [done|]. simpl.
    intros path (exe' & root' & res' & script' & Hcan' & Hd' & ->).
    assert (exe' = exe) as -> by congruence.
    destruct (derives_fun _ _ _ _ _ _ _ _ _ _ Hd Hd') as (_ & _ & <-).
    split; [done | apply msg_not_found_mentions].
  - destruct Hf as (exe & root & res & script & Hcan & Hd & Hstat & Hchdir).
    rewrite (run_resolved _ _ _ _ _ _ _ _ _ _ _ Hcan Hd), Hstat, Hchdir. simpl.
    eexists. split; [done|]. simpl. split; [done|].
    intros path (exe' & root' & res' & script' & Hcan' & Hd' & ->).
    apply fixed_text_omits; [done..|].
    by destruct (derived_slash_or_full _ _ _ _ Hd').
  - destruct Hf as (exe & root & res & script & Hcan & Hd & Hstat & Hchdir & Hexec).
    rewrite (run_resolved _ _ _ _ _ _ _ _ _ _ _ Hcan Hd), Hstat, Hchdir, Hexec.
    simpl. eexists. split; [done|]. simpl. split; [done|].
    intros path (exe' & root' & res' & script' & Hcan' & Hd' & ->).
    apply fixed_text_omits; [done..|].
    by destruct (derived_slash_or_full _ _ _ _ Hd').
Qed.

End launcher.

(** ** Order of the steps and release of the canonical path *)

Section order.
Variable w : World.
Variables j1 j2 j3 : nat → ascii.
Variable argv : list cstr.
Variable dir : cstr.
Variable env : list cstr.

(** The five runs of the launcher. *)
Lemma run_cases :
  ∃ r p, run w j1 j2 j3 argv dir env = Some (r, p) ∧
    ((canonical w argv = None ∧ r = Exited 1 ∧
      calls p = [CallRealpath (head argv)] ∧ exe_block p = Unallocated) ∨
     ∃ exe root res script,
       canonical w argv = Some exe ∧ derives j1 j2 j3 exe root res script ∧
       ((os_stat w script = false ∧ r = Exited 1 ∧ exe_block p = Released ∧
         stderr p = msg_not_found script ∧
         calls p = [CallRealpath (head argv); CallStat script; CallFree]) ∨
        (os_stat w script = true ∧ os_chdir w res = false ∧
         r = Exited 1 ∧ exe_block p = Released ∧ stderr p = msg_chdir ∧
         calls p = [CallRealpath (head argv); CallStat script; CallChdir res;
                    CallFree]) ∨
        (os_stat w script = true ∧ os_chdir w res = true ∧
         os_execl w script [script] = false ∧
         r = Exited 1 ∧ exe_block p = Released ∧ stderr p = msg_exec ∧
         calls p = [CallRealpath (head argv); CallStat script; CallChdir res;
                    CallExecl script [script]; CallFree]) ∨
        (os_stat w script = true ∧ os_chdir w res = true ∧
         os_execl w script [script] = true ∧
         r = Replaced script [script] ∧ exe_block p = Live ∧ stderr p = [] ∧
         calls p = [CallRealpath (head argv); CallStat script; CallChdir res;
                    CallExecl script [script]]))).
Proof.
  destruct (canonical w argv) as [exe|] eqn:Hcan.
  - destruct (derives_total j1 j2 j3 exe) as (root & res & script & Hd).
    rewrite (run_resolved _ _ _ _ _ _ _ _ _ _ _ Hcan Hd).
    destruct (os_stat w script) eqn:Hstat, (os_chdir w res) eqn:Hchdir,
      (os_execl w script [script]) eqn:Hexec; simpl;
      eexists _, _; (split; [done|]); right; exists exe, root, res, script;
      (split; [done|]); (split; [done|]); simpl; naive_solver.
  - rewrite (run_unresolved _ _ _ _ _ _ _ Hcan).
    eexists _, _. split; [done|]. by left.
Qed.

(** C6.  The steps run in the order Resolve, Validate, Chdir, Exec, each
    at most once.  Resolve is always the first call, and each step that
    succeeds is followed by the next: after a successful [realpath] the
    steps are exactly Resolve, Validate, then Chdir if [stat] succeeded,
    then Exec if [chdir] succeeded, and the run ends by replacement
    exactly when all four succeed.  A failure ends the run: after a
    failed [realpath] no other step runs, after a failed [stat] neither
    [chdir] nor [execl] is called, after a failed [chdir] [execl] is not
    called, and after each of them, as after an [execl] that returns,
    [main] returns 1. *)
Theorem steps_in_order :
  ∃ r p, run w j1 j2 j3 argv dir env = Some (r, p) ∧
    steps p `prefix_of` [Resolve; Validate; Chdir; Exec] ∧
    NoDup (steps p) ∧
    (canonical w argv = None → steps p = [Resolve] ∧ r = Exited 1) ∧
    (∀ path, CallStat path ∈ calls p → os_stat w path = false →
             steps p = [Resolve; Validate] ∧ r = Exited 1) ∧
    (∀ path, CallChdir path ∈ calls p → os_chdir w path = false →
             steps p = [Resolve; Validate; Chdir] ∧ r = Exited 1) ∧
    (∀ path args, CallExecl path args ∈ calls p → os_execl w path args = false →
             steps p = [Resolve; Validate; Chdir; Exec] ∧ r = Exited 1) ∧
    head (calls p) = Some (CallRealpath (head argv)) ∧
    (∀ exe root res script,
       canonical w argv = Some exe → derives j1 j2 j3 exe root res script →
       steps p = Resolve :: Validate ::
                   (if os_stat w script
                    then Chdir :: (if os_chdir w res then [Exec] else [])
                    else []) ∧
       filter (λ c, is_release c = false) (calls p)
         = CallRealpath (head argv) :: CallStat script ::
             (if os_stat w script
              then CallChdir res ::
                     (if os_chdir w res then [CallExecl script [script]] else [])
              else []) ∧
       r = if os_stat w script && os_chdir w res && os_execl w script [script]
           then Replaced script [script] else Exited 1).
Proof.
  destruct run_cases as (r & p & Hrun & Hcases). exists r, p. split; [done|].
  assert (∀ exe root res script,
       canonical w argv = Some exe → derives j1 j2 j3 exe root res script →
       steps p = Resolve :: Validate ::
                   (if os_stat w script
                    then Chdir :: (if os_chdir w res then [Exec] else [])
                    else []) ∧
       filter (λ c, is_release c = false) (calls p)
         = CallRealpath (head argv) :: CallStat script ::
             (if os_stat w script
              then CallChdir res ::
                     (if os_chdir w res then [CallExecl script [script]] else [])
              else []) ∧
       r = if os_stat w script && os_chdir w res && os_execl w script [script]
           then Replaced script [script] else Exited 1) as Hnext.
  { intros exe root res script Hcan Hd.
    rewrite (run_resolved _ _ _ _ _ _ _ _ _ _ _ Hcan Hd) in Hrun.
    destruct (os_stat w script), (os_chdir w res), (os_execl w script [script]);
      simpl in Hrun; injection Hrun as <- <-; done. }
  assert (head (calls p) = Some (CallRealpath (head argv))) as Hfirst.
  { destruct Hcases as [(_ & _ & -> & _) | (exe & root & res & script & _ & _ &
      [(_ & _ & _ & _ & ->) | [(_ & _ & _ & _ & _ & ->) |
      [(_ & _ & _ & _ & _ & _ & ->) | (_ & _ & _ & _ & _ & _ & ->)]]])]; done. }
  cut (steps p `prefix_of` [Resolve; Validate; Chdir; Exec] ∧
    NoDup (steps p) ∧
    (canonical w argv = None → steps p = [Resolve] ∧ r = Exited 1) ∧
    (∀ path, CallStat path ∈ calls p → os_stat w path = false →
             steps p = [Resolve; Validate] ∧ r = Exited 1) ∧
    (∀ path, CallChdir path ∈ calls p → os_chdir w path = false →
             steps p = [Resolve; Validate; Chdir] ∧ r = Exited 1) ∧
    (∀ path args, CallExecl path args ∈ calls p → os_execl w path args = false →
             steps p = [Resolve; Validate; Chdir; Exec] ∧ r = Exited 1)).
  { intros (H1 & H2 & H3 & H4 & H5 & H6). by split_and!. }
  clear Hnext Hfirst. unfold steps.
  destruct Hcases as [(Hcan & -> & -> & _) | (exe & root & res & script & Hcan & _ &
    [(Hstat & -> & _ & _ & ->) | [(Hstat & Hchdir & -> & _ & _ & ->) |
    [(Hstat & Hchdir & Hexec & -> & _ & _ & ->) |
     (Hstat & Hchdir & Hexec & -> & _ & _ & ->)]]])]; simpl.
  all: split; [by eexists|].
  all: split; [repeat (constructor; [intros Hin; pick_call Hin|]); constructor|].
  all: split; [intros; try done; congruence|].
  all: split_and!.
  all: try (intros path Hin Hfail; pick_call Hin; simplify_eq;
            first [done | congruence]).
  all: try (intros path args Hin Hfail; pick_call Hin; simplify_eq;
            first [done | congruence]).
Qed.

(** C7.  The validator fails, with the diagnostic of
    [ScriptNotFoundError] and no later step, if and only if [stat] fails
    on [script_path]; nothing else of the entry is examined.  When
    [stat] succeeds the launcher goes on to [chdir] and from there to
    [execl], and when the [execl] that follows returns, [main] returns 1
    with the diagnostic of the failed execution. *)
Theorem validator_checks_existence_only exe root res script :
  canonical w argv = Some exe → derives j1 j2 j3 exe root res script →
  ∃ r p, run w j1 j2 j3 argv dir env = Some (r, p) ∧
    ((r = Exited 1 ∧ stderr p = msg_not_found script ∧
      steps p = [Resolve; Validate]) ↔ os_stat w script = false) ∧
    (os_stat w script = true → CallChdir res ∈ calls p) ∧
    (os_stat w script = true → os_chdir w res = true →
     CallExecl script [script] ∈ calls p) ∧
    (os_stat w script = true → CallExecl script [script] ∈ calls p →
     os_execl w script [script] = false →
     r = Exited 1 ∧ stderr p = msg_exec).
Proof.
  intros Hcan Hd. rewrite (run_resolved _ _ _ _ _ _ _ _ _ _ _ Hcan Hd).
  destruct (os_stat w script) eqn:Hstat, (os_chdir w res) eqn:Hchdir,
    (os_execl w script [script]) eqn:Hexec; simpl; eexists _, _; (split; [done|]).
  all: split;
    [split; [intros (_ & _ & Hsteps); first [done | discriminate Hsteps]
            | intros Hf; first [discriminate Hf | done]]|].
  all: simpl; split; [intros Hok | split; [intros Hok Hok' | intros Hok Hin Hret]].
  all: try discriminate Hok; try discriminate Hok'; try discriminate Hret.
  all: try (rewrite !elem_of_cons; naive_solver).
  all: try (pick_call Hin; done).
  all: try done.
Qed.

(** C8.  Once the canonical path is allocated, a run in which [main]
    returns has released its block exactly once, as its last call; a run
    that ends by replacement has not released it; and no run releases a
    block that is not live, which would be undefined. *)
Theorem canonical_path_released_once exe :
  canonical w argv = Some exe →
  ∃ r p, run w j1 j2 j3 argv dir env = Some (r, p) ∧
    match r with
    | Exited _ =>
        exe_block p = Released ∧ releases p = 1 ∧ last (calls p) = Some CallFree
    | Replaced _ _ => exe_block p = Live ∧ releases p = 0
    end.
Proof.
  intros Hcan.
  destruct (derives_total j1 j2 j3 exe) as (root & res & script & Hd).
  rewrite (run_resolved _ _ _ _ _ _ _ _ _ _ _ Hcan Hd).
  destruct (os_stat w script), (os_chdir w res), (os_execl w script [script]);
    simpl; eexists _, _; (split; [done|]); done.
Qed.

End order.

(** Releasing a block twice is undefined in the model. *)
Lemma free_twice_undefined dir env :
  (Sys.free;; Sys.free) (Proc dir env Live [] []) = None.
Proof. reflexivity. Qed.

(** ** The launcher of a bundle in /Applications *)

Lemma derives_installed j1 j2 j3 :
  derives j1 j2 j3 installed installed_root installed_resources installed_script.
Proof.
  assert (nul_free installed) as Hnf by nul_free_by_evaluation.
  pose proof (derives_nul_free j1 j2 j3 installed Hnf) as Hd.
  assert (cut_at_marker (take 1023 installed) = installed_root) as Hroot
    by by_evaluation.
  rewrite Hroot in Hd. exact Hd.
Qed.

(** C3, at a launcher started with one more argument. *)
Lemma exec_replaces_image_installed :
  canonical healthy [lit "./sshpilot"; lit "--verbose"] = Some installed ∧
  derives dots dots dots installed installed_root installed_resources installed_script ∧
  ∃ p, run healthy dots dots dots [lit "./sshpilot"; lit "--verbose"] (lit "/")
         [lit "HOME=/Users/me"]
         = Some (Replaced installed_script [installed_script], p) ∧
       cwd p = installed_resources ∧ environ p = [lit "HOME=/Users/me"].
Proof.
  split; [reflexivity|]. split; [apply derives_installed|].
  destruct (exec_replaces_image healthy dots dots dots
              [lit "./sshpilot"; lit "--verbose"] (lit "/") [lit "HOME=/Users/me"]
              installed installed_root installed_resources installed_script
              eq_refl (derives_installed _ _ _) eq_refl eq_refl eq_refl)
    as (p & Hrun & Hcwd & Henv & _).
  exists p. split; [exact Hrun|]. split; [exact Hcwd | exact Henv].
Defined.

(** C5 (as stated) fails: when [chdir] fails the diagnostic does not
    contain the offending path, the resources directory. *)
Lemma chdir_diagnostic_omits_the_path :
  fails no_resources dots dots dots [installed] ChdirError ∧
  offending_path no_resources dots dots dots [installed] ChdirError installed_resources ∧
  ∃ p, run no_resources dots dots dots [installed] (lit "/") [] = Some (Exited 1, p) ∧
       stderr p = msg_chdir ∧
       ¬ contains (stderr p) installed_resources.
Proof.
  split; [|split].
  - exists installed, installed_root, installed_resources, installed_script.
    split; [reflexivity|]. split; [apply derives_installed | done].
  - exists installed, installed_root, installed_resources, installed_script.
    split; [reflexivity|]. split; [apply derives_installed | done].
  - rewrite (run_resolved no_resources dots dots dots [installed] (lit "/") [] _ _ _ _
               eq_refl (derives_installed _ _ _)).
    simpl. eexists. split; [done|]. split; [done|]. simpl.
    apply strstr_None. by_evaluation.
Qed.

(** The diagnostic of a failed resolution is a fixed text: a bare name
    given as [argv[0]] can occur in it by coincidence. *)
Lemma resolve_text_holds_a_bare_name : contains msg_resolve (lit "path").
Proof. exists 36. apply is_prefix_spec. by_evaluation. Qed.

(** C5, at a bundle whose script is missing: the diagnostic names the
    script path. *)
Lemma script_not_found_names_its_path_installed :
  fails no_script dots dots dots [installed] ScriptNotFoundError ∧
  ∃ p, run no_script dots dots dots [installed] (lit "/") [] = Some (Exited 1, p) ∧
       contains (stderr p) installed_script.
Proof.
  assert (fails no_script dots dots dots [installed] ScriptNotFoundError) as Hf.
  { exists installed, installed_root, installed_resources, installed_script.
    split; [reflexivity|]. split; [apply derives_installed | done]. }
  split; [exact Hf|].
  destruct (only_script_not_found_names_its_path no_script dots dots dots [installed]
              (lit "/") [] ScriptNotFoundError Hf) as (p & Hrun & Hpath).
  exists p. split; [exact Hrun|].
  apply Hpath.
  exists installed, installed_root, installed_resources, installed_script.
  split; [reflexivity|]. split; [apply derives_installed | done].
Defined.

(** C7, at a bundle whose script exists and cannot be executed. *)
Lemma validator_checks_existence_only_installed :
  canonical not_executable [installed] = Some installed ∧
  derives dots dots dots installed installed_root installed_resources installed_script ∧
  ∃ p, run not_executable dots dots dots [installed] (lit "/") [] = Some (Exited 1, p) ∧
       stderr p = msg_exec.
Proof.
  split; [reflexivity|]. split; [apply derives_installed|].
  destruct (validator_checks_existence_only not_executable dots dots dots [installed]
              (lit "/") []
              installed installed_root installed_resources installed_script
              eq_refl (derives_installed _ _ _))
    as (r & p & Hrun & _ & _ & Hcall & Hexec).
  destruct (Hexec eq_refl (Hcall eq_refl eq_refl) eq_refl) as [-> Hmsg].
  exists p. split; [exact Hrun | exact Hmsg].
Defined.

(** C8, at a bundle whose resources directory cannot be entered. *)
Lemma canonical_path_released_once_installed :
  canonical no_resources [installed] = Some installed ∧
  ∃ r p, run no_resources dots dots dots [installed] (lit "/") [] = Some (r, p) ∧
         exe_block p = Released ∧ releases p = 1.
Proof.
  split; [reflexivity|].
  destruct (canonical_path_released_once no_resources dots dots dots [installed]
              (lit "/") [] installed eq_refl) as (r & p & Hrun & Hblock).
  assert (∃ p', run no_resources dots dots dots [installed] (lit "/") []
                = Some (Exited 1, p'))
    as [p' Hval] by (eexists; by_evaluation).
  rewrite Hval in Hrun. injection Hrun as <- <-.
  exists (Exited 1), p'. split; [exact Hval|].
  destruct Hblock as (Hb & Hr & _). split; [exact Hb | exact Hr].
Defined.

(** ** The launcher at work *)

Example run_healthy :
  run healthy dots dots dots [installed] (lit "/") [lit "HOME=/Users/me"]
  = Some (Replaced installed_script [installed_script],
          Proc installed_resources [lit "HOME=/Users/me"] Live []
            [CallRealpath (Some installed); CallStat installed_script;
             CallChdir installed_resources;
             CallExecl installed_script [installed_script]]).
Proof. by_evaluation. Qed.

Example run_no_script :
  run no_script dots dots dots [installed] (lit "/") []
  = Some (Exited 1,
          Proc (lit "/") [] Released (msg_not_found installed_script)
            [CallRealpath (Some installed); CallStat installed_script; CallFree]).
Proof. by_evaluation. Qed.

Example run_without_argv :
  run healthy dots dots dots [] (lit "/") []
  = Some (Exited 1, Proc (lit "/") [] Unallocated msg_resolve [CallRealpath None]).
Proof. by_evaluation. Qed.

(** * Further properties of [main] *)

(** ** What the arrays hold, whatever they held before *)

Section contents.
Import Mem Libc.

(** What follows the terminator is not read. *)
Lemma c_str_beyond s r r' : c_str (s ++ NUL :: r) = c_str (s ++ NUL :: r').
Proof.
  induction s as [|c s IH].
  - rewrite !app_nil_l, !c_str_cons. by rewrite !decide_True.
  - rewrite <- !app_comm_cons, !c_str_cons. by rewrite IH.
Qed.

Lemma nul_free_cut copied : nul_free copied → nul_free (cut_at_marker copied).
Proof. apply nul_free_prefix, cut_at_marker_prefix. Qed.

Lemma nul_free_suffixes : nul_free resources_suffix ∧ nul_free script_suffix.
Proof. split; unfold nul_free; by apply (bool_decide_unpack _). Qed.

(** Lines 21-28 on arrays of any capacity and content: the strings left
    in the arrays are functions of the canonical path and of the
    capacities alone. *)
Lemma fill_paths_strings a1 a2 a3 exe :
  0 < length a1 → 0 < length a2 → 0 < length a3 →
  ∃ ps copied,
    fill_paths a1 a2 a3 exe = Some ps ∧
    c_str (take (length a1 - 1) exe ++ [NUL]) = Some copied ∧
    c_str (app_path ps) = Some (cut_at_marker copied) ∧
    c_str (resources_path ps)
      = Some (take (length a2 - 1) (cut_at_marker copied ++ resources_suffix)) ∧
    c_str (script_path ps)
      = Some (take (length a3 - 1) (cut_at_marker copied ++ script_suffix)).
Proof.
  intros H1 H2 H3. unfold fill_paths.
  destruct (snprintf_sizeof a1 exe H1) as (r1 & -> & Hlen1). simpl.
  destruct (c_str_terminated (take (length a1 - 1) exe) r1)
    as (copied & Hcopied & _ & _).
  rewrite Hcopied. simpl.
  pose proof Hcopied as Hshort. rewrite (c_str_beyond _ r1 []) in Hshort.
  destruct (c_str_inv _ _ Hcopied) as [Hnf [r1' Hb1]].
  rewrite Hb1. clear Hb1 Hcopied.
  destruct (strstr copied marker) as [i|] eqn:Hi.
  - destruct (store_at_marker copied r1' i Hi) as (r' & -> & _ & _). simpl.
    assert (cut_at_marker copied = take i copied) as Hcut
      by (unfold cut_at_marker; by rewrite Hi).
    rewrite (c_str_app (take i copied) r') by by apply nul_free_take. simpl.
    destruct (snprintf_sizeof a2 (take i copied ++ resources_suffix) H2)
      as (r2 & -> & _). simpl.
    destruct (snprintf_sizeof a3 (take i copied ++ script_suffix) H3)
      as (r3 & -> & _). simpl.
    eexists _, copied. split; [done|]. simpl. rewrite Hcut.
    split_and!; [done | by apply c_str_app, nul_free_take | ..];
      apply c_str_app, nul_free_take, nul_free_app;
      first [by apply nul_free_take | apply nul_free_suffixes].
  - simpl.
    assert (cut_at_marker copied = copied) as Hcut
      by (unfold cut_at_marker; by rewrite Hi).
    rewrite (c_str_app copied r1') by done. simpl.
    destruct (snprintf_sizeof a2 (copied ++ resources_suffix) H2)
      as (r2 & -> & _). simpl.
    destruct (snprintf_sizeof a3 (copied ++ script_suffix) H3)
      as (r3 & -> & _). simpl.
    eexists _, copied. split; [done|]. simpl. rewrite Hcut.
    split_and!; [done | by apply c_str_app | ..];
      apply c_str_app, nul_free_take, nul_free_app;
      first [done | apply nul_free_suffixes].
Qed.

(** The shape of the derived strings, for every canonical path. *)
Lemma derives_shape j1 j2 j3 exe root res script :
  derives j1 j2 j3 exe root res script →
  ∃ copied,
    c_str (take 1023 exe ++ [NUL]) = Some copied ∧
    root = cut_at_marker copied ∧
    res = take 1023 (root ++ resources_suffix) ∧
    script = take 1023 (root ++ script_suffix).
Proof.
  intros (ps & Hps & Hroot & Hres & Hscr). unfold construct_paths in Hps.
  destruct (fill_paths_strings (alloca 1024 j1) (alloca 1024 j2) (alloca 1024 j3) exe)
    as (ps' & copied & Hps' & Hcopied & Hroot' & Hres' & Hscr');
    [rewrite length_alloca; lia ..|].
  rewrite !length_alloca in *. replace (1024 - 1) with 1023 in * by lia.
  assert (ps' = ps) as -> by congruence.
  exists copied. split; [done|].
  assert (root = cut_at_marker copied) as -> by congruence.
  split_and!; congruence.
Qed.

Lemma copied_prefix exe copied :
  c_str (take 1023 exe ++ [NUL]) = Some copied → copied `prefix_of` exe.
Proof.
  intros Hc. destruct (c_str_terminated (take 1023 exe) []) as (s & Hs & Hpre & _).
  assert (s = copied) as -> by congruence.
  etrans; [done | apply prefix_take].
Qed.

End contents.

(** ** The derived strings *)

Section derived.
Import Mem Libc.
Variables j1 j2 j3 : nat → ascii.

Lemma derives_any_junk k1 k2 k3 exe root res script :
  derives j1 j2 j3 exe root res script → derives k1 k2 k3 exe root res script.
Proof.
  intros Hd. destruct (derives_shape _ _ _ _ _ _ _ Hd) as (copied & Hc & -> & -> & ->).
  destruct (derives_total k1 k2 k3 exe) as (root' & res' & script' & Hd').
  destruct (derives_shape _ _ _ _ _ _ _ Hd') as (copied' & Hc' & -> & -> & ->).
  assert (copied' = copied) as -> by congruence.
  exact Hd'.
Qed.

Lemma head_take_pos (n : nat) (l : cstr) : 0 < n → head (take n l) = head l.
Proof. intros Hn. destruct n; [lia|]. by destruct l. Qed.

Lemma script_suffix_split : script_suffix = resources_suffix ++ lit "/launcher.sh".
Proof. reflexivity. Qed.

(** X2.  The bundle root never contains the marker: whatever the
    canonical path and however often the marker occurs in it, the
    string left in [app_path] by lines 21-25 has no occurrence of
    "/Contents/". *)
Theorem root_never_contains_marker exe root res script :
  derives j1 j2 j3 exe root res script → ¬ contains root marker.
Proof.
  intros Hd. destruct (derives_shape _ _ _ _ _ _ _ Hd) as (copied & _ & -> & _ & _).
  unfold cut_at_marker. destruct (strstr copied marker) as [i|] eqn:Hi.
  - destruct (strstr_Some _ _ _ Hi) as [_ Hmin]. intros [j Hj].
    apply (Hmin j); [|by eapply occurs_at_take].
    apply occurs_at_split in Hj as (rest & _ & Hlen); [|done].
    rewrite length_take in Hlen. change (length marker) with 10 in Hlen. lia.
  - by apply strstr_None.
Qed.


(** X8.  A bundle root of 1004 bytes or more leaves no room for the
    name of the script: [script_path] then holds the same string as
    [resources_path], so that the launcher validates, and would execute,
    the resources directory itself; and a root of 1023 bytes leaves no
    room for any suffix: all three arrays hold the root. *)
Theorem long_root_leaves_no_room exe root res script :
  derives j1 j2 j3 exe root res script →
  (1004 ≤ length root → script = res) ∧
  (1023 ≤ length root → res = root ∧ script = root).
Proof.
  intros Hd. destruct (derives_shape _ _ _ _ _ _ _ Hd) as (copied & _ & _ & -> & ->).
  split.
  - intros Hlong. rewrite script_suffix_split, app_assoc.
    apply take_app_le. rewrite length_app.
    change (length resources_suffix) with 19. lia.
  - intros Hlong. rewrite !(take_app_le root) by lia.
    assert (length root ≤ 1023) as Hle.
    { destruct (derives_shape _ _ _ _ _ _ _ Hd) as (copied' & Hc & -> & _ & _).
      pose proof (cut_at_marker_prefix copied') as Hp1%prefix_length.
      destruct (c_str_terminated (take 1023 exe) []) as (s & Hs & Hp2%prefix_length & _).
      assert (s = copied') as -> by congruence.
      rewrite length_take in Hp2. lia. }
    split; apply take_ge; lia.
Qed.

(** X9.  When the canonical path is absolute, so are the directory
    that the launcher enters and the script that it executes, even when
    the bundle root is empty: the [execl] that follows [chdir] does not
    depend on the new working directory. *)
Theorem derived_paths_are_absolute exe root res script :
  derives j1 j2 j3 exe root res script →
  head exe = Some "/"%char →
  head res = Some "/"%char ∧ head script = Some "/"%char ∧
  (root = [] ∨ head root = Some "/"%char).
Proof.
  intros Hd Habs.
  destruct (derives_shape _ _ _ _ _ _ _ Hd) as (copied & Hc & Hroot & -> & ->).
  assert (root `prefix_of` exe) as [k Hk].
  { rewrite Hroot. etrans; [apply cut_at_marker_prefix | by eapply copied_prefix]. }
  rewrite !head_take_pos by lia.
  destruct root as [|c root']; [by auto|].
  rewrite Hk in Habs. simpl in *. auto.
Qed.

End derived.

(** ** Every run of the launcher *)

Section every_run.
Variable w : World.
Variables j1 j2 j3 : nat → ascii.
Variable argv : list cstr.
Variable dir : cstr.
Variable env : list cstr.

(** X1.  The launcher never depends on what its three arrays held
    before they were written: two runs that differ only in the
    indeterminate contents of [app_path], [resources_path] and
    [script_path] at their declaration make the same calls, write the
    same text and end alike. *)
Theorem run_ignores_array_contents k1 k2 k3 :
  run w j1 j2 j3 argv dir env = run w k1 k2 k3 argv dir env.
Proof.
  destruct (canonical w argv) as [exe|] eqn:Hcan.
  - destruct (derives_total j1 j2 j3 exe) as (root & res & script & Hd).
    rewrite (run_resolved w j1 j2 j3 argv dir env _ _ _ _ Hcan Hd).
    by rewrite (run_resolved w k1 k2 k3 argv dir env _ _ _ _ Hcan
                  (derives_any_junk j1 j2 j3 k1 k2 k3 _ _ _ _ Hd)).
  - by rewrite !run_unresolved.
Qed.

(** X4.  What is executed is what was validated: in every run the path
    given to [execl], and its single argument, are the very string that
    [stat] was given. *)
Theorem executed_path_is_validated_path :
  ∃ r p, run w j1 j2 j3 argv dir env = Some (r, p) ∧
    ∀ checked image args,
      CallStat checked ∈ calls p → CallExecl image args ∈ calls p →
      image = checked ∧ args = [checked].
Proof.
  destruct (run_cases w j1 j2 j3 argv dir env) as (r & p & Hrun & Hcases).
  exists r, p. split; [done|]. intros checked image args Hstat Hexec.
  destruct Hcases as [(_ & _ & Hcalls & _) | (exe & root & res & script & _ & _ &
    [(_ & _ & _ & _ & Hcalls) | [(_ & _ & _ & _ & _ & Hcalls) |
    [(_ & _ & _ & _ & _ & _ & Hcalls) | (_ & _ & _ & _ & _ & _ & Hcalls)]]])];
    rewrite Hcalls in Hstat, Hexec; pick_call Hstat; pick_call Hexec;
    by simplify_eq.
Qed.

(** X5.  [free] is never called on a null pointer and never twice: a
    run releases the block of the canonical path at most once, only
    after [realpath] succeeded and as its last call; and no run in
    which [main] returns leaves the block allocated. *)
Theorem release_discipline :
  ∃ r p, run w j1 j2 j3 argv dir env = Some (r, p) ∧
    releases p ≤ 1 ∧
    (canonical w argv = None → releases p = 0 ∧ exe_block p = Unallocated) ∧
    (CallFree ∈ calls p →
     is_Some (canonical w argv) ∧ last (calls p) = Some CallFree) ∧
    (∀ status, r = Exited status → exe_block p ≠ Live).
Proof.
  destruct (run_cases w j1 j2 j3 argv dir env) as (r & p & Hrun & Hcases).
  exists r, p. split; [done|]. unfold releases.
  destruct Hcases as [(Hcan & -> & Hcalls & Hb) | (exe & root & res & script & Hcan & _ &
    [(_ & -> & Hb & _ & Hcalls) | [(_ & _ & -> & Hb & _ & Hcalls) |
    [(_ & _ & _ & -> & Hb & _ & Hcalls) | (_ & _ & _ & -> & Hb & _ & Hcalls)]]])];
    rewrite Hcalls, Hb, Hcan; simpl.
  all: split; [lia|].
  all: split; [intros; first [done | congruence]|].
  all: split; [intros Hin; first [by split | pick_call Hin] | done].
Qed.

(** X6.  Where a run leaves the process: the working directory at the
    end is the resources directory exactly when [stat] and [chdir] both
    succeeded, also in the run where [execl] then fails and [main]
    returns 1 from inside the bundle, and the directory at the start in
    every other run; the environment is the one at the start.  So the
    directory changes only through a [chdir] that succeeded. *)
Theorem environment_and_directory :
  ∃ r p, run w j1 j2 j3 argv dir env = Some (r, p) ∧
    environ p = env ∧
    ((cwd p = dir ∧ ∀ path, CallChdir path ∈ calls p → os_chdir w path = false) ∨
     (∃ path, CallChdir path ∈ calls p ∧ os_chdir w path = true ∧ cwd p = path)) ∧
    (canonical w argv = None → cwd p = dir) ∧
    (∀ exe root res script,
       canonical w argv = Some exe → derives j1 j2 j3 exe root res script →
       cwd p = (if os_stat w script && os_chdir w res then res else dir) ∧
       (os_stat w script = true → os_chdir w res = true →
        os_execl w script [script] = false → r = Exited 1 ∧ cwd p = res)).
Proof.
  destruct (canonical w argv) as [exe|] eqn:Hcan.
  - destruct (derives_total j1 j2 j3 exe) as (root & res & script & Hd).
    rewrite (run_resolved _ _ _ _ _ _ _ _ _ _ _ Hcan Hd).
    assert (∀ exe' root' res' script',
              Some exe = Some exe' → derives j1 j2 j3 exe' root' res' script' →
              res' = res ∧ script' = script) as Hsame.
    { intros exe' root' res' script' [= <-] Hd'.
      by destruct (derives_fun _ _ _ _ _ _ _ _ _ _ Hd Hd') as (_ & -> & ->). }
    destruct (os_stat w script) eqn:Hstat, (os_chdir w res) eqn:Hchdir,
      (os_execl w script [script]) eqn:Hexec; simpl;
      eexists _, _; (split; [done|]); (split; [done|]); simpl.
    all: split; [|split; [done|]].
    all: try (intros exe' root' res' script' Hcan' Hd';
              destruct (Hsame _ _ _ _ Hcan' Hd') as [-> ->];
              rewrite Hstat, ?Hchdir, ?Hexec; simpl; split; [done|];
              intros; first [done | congruence]).
    all: first
      [ right; exists res; split; [|done]; rewrite !elem_of_cons; by auto
      | left; split; [done|]; intros path Hin; pick_call Hin; by simplify_eq ].
  - rewrite (run_unresolved _ _ _ _ _ _ _ Hcan).
    eexists _, _. split; [done|]. split; [done|]. simpl.
    split; [|split; [done | intros; congruence]].
    left. split; [done|]. intros path Hin. pick_call Hin.
Qed.

(** X7.  The error stream stays empty exactly in the run that ends by
    replacement; in every other run it holds one diagnostic, which
    starts with "Error: " and ends with a newline. *)
Theorem diagnostics_are_framed :
  ∃ r p, run w j1 j2 j3 argv dir env = Some (r, p) ∧
    (stderr p = [] ↔ ∃ image args, r = Replaced image args) ∧
    (stderr p ≠ [] →
     r = Exited 1 ∧ lit "Error: " `prefix_of` stderr p ∧ last (stderr p) = Some LF).
Proof.
  assert (∀ text, text = msg_resolve ∨ (∃ script, text = msg_not_found script) ∨
                  text = msg_chdir ∨ text = msg_exec →
          text ≠ [] ∧ lit "Error: " `prefix_of` text ∧ last text = Some LF) as Hmsg.
  { intros text [-> | [[script ->] | [-> | ->]]].
    - split; [done|]. split; [by apply is_prefix_spec | done].
    - split; [done|]. split; [by apply is_prefix_spec|].
      unfold msg_not_found. by rewrite app_assoc, last_snoc.
    - split; [done|]. split; [by apply is_prefix_spec | done].
    - split; [done|]. split; [by apply is_prefix_spec | done]. }
  destruct (canonical w argv) as [exe|] eqn:Hcan.
  - destruct (derives_total j1 j2 j3 exe) as (root & res & script & Hd).
    rewrite (run_resolved _ _ _ _ _ _ _ _ _ _ _ Hcan Hd).
    destruct (os_stat w script), (os_chdir w res), (os_execl w script [script]);
      simpl; eexists _, _; (split; [done|]); simpl.
    all: try (split; [split; [by eexists _, _ | done] | done]).
    all: match goal with
         | |- (?text = [] ↔ _) ∧ _ =>
             destruct (Hmsg text) as (Hne & Hpre & Hlast); [by eauto 6|]
         end.
    all: split; [split; [done | by intros (? & ? & ?)] | done].
  - rewrite (run_unresolved _ _ _ _ _ _ _ Hcan).
    eexists _, _. split; [done|]. simpl.
    destruct (Hmsg msg_resolve) as (Hne & Hpre & Hlast); [by left|].
    split; [split; [done | by intros (? & ? & ?)] | done].
Qed.

End every_run.

(** ** The further properties at the example installations *)

Lemma derives_nested j1 j2 j3 :
  derives j1 j2 j3 nested (lit "/Volumes")
    (lit "/Volumes/Contents/Resources")
    (lit "/Volumes/Contents/Resources/launcher.sh").
Proof.
  assert (nul_free nested) as Hnf by nul_free_by_evaluation.
  pose proof (derives_nul_free j1 j2 j3 nested Hnf) as Hd.
  assert (cut_at_marker (take 1023 nested) = lit "/Volumes") as Hroot by by_evaluation.
  rewrite Hroot in Hd. exact Hd.
Qed.

Lemma derives_unbundled j1 j2 j3 :
  derives j1 j2 j3 unbundled unbundled
    (take 1023 (unbundled ++ resources_suffix))
    (take 1023 (unbundled ++ script_suffix)).
Proof.
  assert (nul_free unbundled) as Hnf by nul_free_by_evaluation.
  pose proof (derives_nul_free j1 j2 j3 unbundled Hnf) as Hd.
  assert (cut_at_marker (take 1023 unbundled) = unbundled) as Hroot by by_evaluation.
  rewrite Hroot in Hd. exact Hd.
Qed.

(** X2, at a bundle kept on a volume that is itself named Contents. *)
Lemma root_never_contains_marker_nested :
  derives dots dots dots nested (lit "/Volumes")
    (lit "/Volumes/Contents/Resources")
    (lit "/Volumes/Contents/Resources/launcher.sh") ∧
  ¬ contains (lit "/Volumes") marker.
Proof.
  split; [apply derives_nested|].
  exact (root_never_contains_marker dots dots dots nested _ _ _ (derives_nested _ _ _)).
Defined.


(** X8, at the launcher outside any bundle, whose path of 1013 bytes is
    its own bundle root. *)
Lemma long_root_leaves_no_room_unbundled :
  derives dots dots dots unbundled unbundled
    (take 1023 (unbundled ++ resources_suffix))
    (take 1023 (unbundled ++ script_suffix)) ∧
  1004 ≤ length unbundled ∧
  take 1023 (unbundled ++ script_suffix) = take 1023 (unbundled ++ resources_suffix).
Proof.
  assert (1004 ≤ length unbundled) as Hlong by by_evaluation.
  split; [apply derives_unbundled|]. split; [exact Hlong|].
  destruct (long_root_leaves_no_room dots dots dots unbundled _ _ _
              (derives_unbundled _ _ _)) as [Hsame _].
  exact (Hsame Hlong).
Defined.

(** X9, at the bundle in /Applications. *)
Lemma derived_paths_are_absolute_installed :
  derives dots dots dots installed installed_root installed_resources installed_script ∧
  head installed = Some "/"%char ∧
  head installed_resources = Some "/"%char ∧ head installed_script = Some "/"%char.
Proof.
  split; [apply derives_installed|]. split; [reflexivity|].
  destruct (derived_paths_are_absolute dots dots dots installed _ _ _
              (derives_installed _ _ _) eq_refl) as (Hres & Hscr & _).
  split; [exact Hres | exact Hscr].
Defined.
